(** * working-with-webpack: the recursive [multiply] of [src/math]

    The only program logic of the repository is

<<
      const add = require('./add.js');
      const subtract = require('./subtract.js');

      const multiply = (a, b, base = a) => {
        if (b <= 1) return a;
        return multiply(add(a, base), subtract(b, 1), base);
      };
>>

    The development embeds it four ways, each read off the source text:
    - [multiply], a total function on integers (well-founded recursion on
      the count [b]);
    - [body] and [run], one invocation and the chain of invocations, which
      record the additions, subtractions and recursive calls performed;
    - [multiplyW], the same code with collaborators that act on an ambient
      world;
    - [multiply_source], the text itself as syntax, run by a small
      interpreter over a store of global variables ([call_multiply]), to
      state what a call reads and writes.

    The suite of [src/math/multiply.test.js] is embedded as data
    ([describe_multiply]) and checked against [multiply].

    Numbers are mathematical integers ([Z]): the statements quantify over
    integers, on which the arithmetic of the source is exact as long as the
    values stay representable.  The depth of the call stack is not bounded
    in this model. *)

From Equations Require Import Equations.
From Stdlib Require Import String.
From Stdlib Require Import ZArith List Lia Bool Arith.
Import ListNotations.

Open Scope Z_scope.

(** ** Collaborators *)

(** Modelled from the spec: [add.js] is not among the sources; section 4.1
    gives its contract, "given two numeric operands, returns their
    arithmetic sum. No side effects." *)
Definition add (x y : Z) : Z := x + y.

(** Modelled from the spec: [subtract.js] is not among the sources; section
    4.2 gives its contract, "given two numeric operands x and y, returns
    x - y. No side effects." *)
Definition subtract (x y : Z) : Z := x - y.

(** ** The optional third argument *)

(** [base = a] in the parameter list: a missing (undefined) third argument
    is [None] and takes the value of the first argument of that very call. *)
Definition default_base (a : Z) (base : option Z) : Z :=
  match base with
  | Some v => v
  | None => a
  end.

(** ** [multiply] as a total function *)

Equations? multiply (a b : Z) (base : option Z) : Z by wf (Z.to_nat b) lt :=
  multiply a b base with Z_le_gt_dec b 1 => {
    | left _ => a
    | right _ =>
        multiply (add a (default_base a base)) (subtract b 1)
                 (Some (default_base a base)) }.
Proof. unfold subtract. lia. Qed.

(** ** One invocation, with what it performs *)

(** The arguments of one invocation. *)
Record frame : Type := Frame {
  arg_a : Z;
  arg_b : Z;
  arg_base : option Z
}.

(** What an evaluation performs, in order: calls of [add], of [subtract],
    and recursive calls of [multiply] with their arguments. *)
Inductive event : Type :=
| EvAdd (x y : Z)
| EvSubtract (x y : Z)
| EvMultiply (c : frame).

(** An invocation either returns or ends in a recursive call. *)
Inductive outcome : Type :=
| Return (v : Z)
| Recurse (c : frame).

(** The function body: the guard, then the two argument expressions from
    left to right and the frame of the recursive call. *)
Definition body (c : frame) : list event * outcome :=
  let a := arg_a c in
  let b := arg_b c in
  let base := default_base a (arg_base c) in
  if b <=? 1 then ([], Return a)
  else ([EvAdd a base; EvSubtract b 1],
        Recurse (Frame (add a base) (subtract b 1) (Some base))).

(** The chain of invocations; [fuel] bounds the depth of the call stack.
    The result carries every event performed and the value returned. *)
Fixpoint run (fuel : nat) (c : frame) : option (list event * Z) :=
  match fuel with
  | O => None
  | S n =>
      match body c with
      | (evs, Return v) => Some (evs, v)
      | (evs, Recurse c') =>
          match run n c' with
          | Some (evs', v) => Some (evs ++ EvMultiply c' :: evs', v)
          | None => None
          end
      end
  end.

(** A call diverges when no stack depth lets it return. *)
Definition diverges (c : frame) : Prop := forall fuel, run fuel c = None.

(** Stack depth that the call needs: one frame, and one more per unit of
    the count above 1. *)
Definition depth (b : Z) : nat := S (Z.to_nat (b - 1)).

Definition is_add (e : event) : bool :=
  match e with EvAdd _ _ => true | _ => false end.
Definition is_subtract (e : event) : bool :=
  match e with EvSubtract _ _ => true | _ => false end.
Definition is_multiply (e : event) : bool :=
  match e with EvMultiply _ => true | _ => false end.

Definition count_events (p : event -> bool) (tr : list event) : nat :=
  length (filter p tr).

(** [stepped n tr]: the trace is [n] recursive steps, each one addition,
    then one subtraction, then the recursive call. *)
Inductive stepped : nat -> list event -> Prop :=
| stepped_done : stepped 0 []
| stepped_step x y u v c n tr :
    stepped n tr ->
    stepped (S n) (EvAdd x y :: EvSubtract u v :: EvMultiply c :: tr).

(** The frames of the recursive calls of a trace, in order. *)
Fixpoint recursive_frames (tr : list event) : list frame :=
  match tr with
  | [] => []
  | EvMultiply c :: tr' => c :: recursive_frames tr'
  | _ :: tr' => recursive_frames tr'
  end.

(** The events of [n] recursive steps from accumulator [a] and count [b]
    with the base [base0]. *)
Fixpoint trace_of (n : nat) (a b base0 : Z) : list event :=
  match n with
  | O => []
  | S n' =>
      EvAdd a base0 :: EvSubtract b 1 ::
      EvMultiply (Frame (a + base0) (b - 1) (Some base0)) ::
      trace_of n' (a + base0) (b - 1) base0
  end.

(** ** The same code in an ambient world *)

Section World.

(** Whatever state exists outside the arguments of a call. *)
Variable World : Type.

(** The collaborators as procedures that may read and write the world. *)
Variables addW subtractW : Z -> Z -> World -> Z * World.

(** [multiply] itself names no variable but its parameters and the three
    functions: the world passes through the two collaborator calls and
    the recursive call, in evaluation order. *)
Fixpoint multiplyW (fuel : nat) (a b : Z) (base : option Z) (w : World)
  : option (Z * World) :=
  match fuel with
  | O => None
  | S n =>
      let base0 := default_base a base in
      if b <=? 1 then Some (a, w)
      else
        let (s, w1) := addW a base0 w in
        let (d, w2) := subtractW b 1 w1 in
        multiplyW n s d (Some base0) w2
  end.

End World.

Arguments multiplyW {World} addW subtractW fuel a b base w.

(** ** The test file [src/math/multiply.test.js] *)

(** [expect(multiply(x, k)).toBe(wanted)]: the two arguments of the call
    and the value it is compared with. *)
Record expectation : Type := Expect {
  received_a : Z;
  received_b : Z;
  wanted : Z
}.

(** [toBe] on two integers. *)
Definition toBe (received expected : Z) : bool := received =? expected.

Definition holds (e : expectation) : bool :=
  toBe (multiply (received_a e) (received_b e) None) (wanted e).

(** One [it] block: its title and its expectations, in order. *)
Record it_block : Type := It {
  title : String.string;
  expectations : list expectation
}.

(** [describe('multiply', ...)]. *)
Definition describe_multiply : list it_block :=
  [ It "should correctly multiply a number by 2"%string
       [Expect 2 2 4; Expect 4 2 8; Expect 16 2 32];
    It "should correctly multiply a number by 4"%string
       [Expect 2 4 8; Expect 4 4 16; Expect 16 4 64];
    It "should correctly multiply a number by 5"%string
       [Expect 2 5 10; Expect 4 5 20; Expect 16 5 80];
    It "should correctly multiply a number by 10"%string
       [Expect 2 10 20; Expect 4 10 40; Expect 16 10 160] ].

(** A block passes when each of its expectations holds, the suite when
    each block does. *)
Definition it_passes (t : it_block) : bool := forallb holds (expectations t).
Definition suite_passes (s : list it_block) : bool := forallb it_passes s.

(** ** The source text, interpreted

    To state what a call reads and writes, the text of [multiply] is also
    kept as syntax and run by an interpreter of the few constructs it is
    written in, over a store of global variables.  Identifiers are resolved
    by the interpreter: parameters first, then the store, each access to
    the store being recorded. *)

(** Values: numbers (integers here), booleans, [undefined]. *)
Inductive value : Type :=
| VNum (n : Z)
| VBool (t : bool)
| VUndefined.

(** Expressions: a literal, an identifier, [e1 <= e2], a call [f(args)]
    of a function bound in the module, and an assignment [x = e] (which
    [multiply] does not contain). *)
#[warnings="-register-all"]
Inductive expr : Type :=
| ENum (n : Z)
| EVar (x : String.string)
| ELe (e1 e2 : expr)
| ECall (f : String.string) (args : list expr)
| EAssign (x : String.string) (e : expr).

(** Statements: [if (c) return r;] and [return r;]. *)
Inductive stmt : Type :=
| SIfReturn (c r : expr)
| SReturn (r : expr).

(** An arrow function: parameters, each with its default initialiser if
    it has one, and the statements of the body. *)
Record arrow : Type := Arrow {
  params : list (String.string * option expr);
  statements : list stmt
}.

(** [(a, b, base = a) => { if (b <= 1) return a;
      return multiply(add(a, base), subtract(b, 1), base); }] *)
Definition multiply_source : arrow :=
  Arrow [("a"%string, None); ("b"%string, None);
         ("base"%string, Some (EVar "a"))]
        [SIfReturn (ELe (EVar "b") (ENum 1)) (EVar "a");
         SReturn (ECall "multiply"
                    [ECall "add" [EVar "a"; EVar "base"];
                     ECall "subtract" [EVar "b"; ENum 1];
                     EVar "base"])].

(** What a name of the module is bound to: one of the two required
    collaborators, or an arrow function of the file. *)
Inductive callee : Type :=
| Builtin (f : Z -> Z -> Z)
| Function (fn : arrow).

(** The three [const] bindings of the file.  Modelled from the spec: the
    files [add.js] and [subtract.js] are not among the sources; they are
    the functions [add] and [subtract] above, which touch no state
    (sections 4.1 and 4.2). *)
Definition module_scope (f : String.string) : option callee :=
  if String.eqb f "add" then Some (Builtin add)
  else if String.eqb f "subtract" then Some (Builtin subtract)
  else if String.eqb f "multiply" then Some (Function multiply_source)
  else None.

(** Variables with their values: the parameters of a call, or the store
    of global variables. *)
Definition bindings : Type := list (String.string * value).

(** An access to the store. *)
Inductive access : Type :=
| Read (x : String.string)
| Write (x : String.string) (v : value).

(** The state outside a call: the store and the accesses made so far. *)
Record world : Type := World_ {
  globals : bindings;
  accesses : list access
}.

Fixpoint lookup (x : String.string) (l : bindings) : option value :=
  match l with
  | [] => None
  | (y, v) :: l' => if String.eqb x y then Some v else lookup x l'
  end.

Fixpoint update (x : String.string) (v : value) (l : bindings) : bindings :=
  match l with
  | [] => [(x, v)]
  | (y, u) :: l' =>
      if String.eqb x y then (y, v) :: l' else (y, u) :: update x v l'
  end.

Section Interpreter.

(** The evaluator of expressions, one unit of fuel lower. *)
Variable ev : expr -> bindings -> world -> option (value * bindings * world).

(** Arguments are evaluated from left to right. *)
Fixpoint eval_args (es : list expr) (env : bindings) (w : world)
  : option (list value * bindings * world) :=
  match es with
  | [] => Some ([], env, w)
  | e :: es' =>
      match ev e env w with
      | Some (v, env1, w1) =>
          match eval_args es' env1 w1 with
          | Some (vs, env2, w2) => Some (v :: vs, env2, w2)
          | None => None
          end
      | None => None
      end
  end.

(** Parameters are bound from left to right; a missing or [undefined]
    argument takes the default initialiser, evaluated with the parameters
    bound so far in scope. *)
Fixpoint bind_params (ps : list (String.string * option expr))
    (vs : list value) (env : bindings) (w : world)
  : option (bindings * world) :=
  match ps with
  | [] => Some (env, w)
  | (x, d) :: ps' =>
      match hd VUndefined vs, d with
      | VUndefined, Some e =>
          match ev e env w with
          | Some (v, env1, w1) =>
              bind_params ps' (tl vs) (env1 ++ [(x, v)]) w1
          | None => None
          end
      | v, _ => bind_params ps' (tl vs) (env ++ [(x, v)]) w
      end
  end.

(** The body: the first [return] reached gives the value of the call. *)
Fixpoint exec (ss : list stmt) (env : bindings) (w : world)
  : option (value * world) :=
  match ss with
  | [] => Some (VUndefined, w)
  | SIfReturn c r :: ss' =>
      match ev c env w with
      | Some (VBool true, env1, w1) =>
          match ev r env1 w1 with
          | Some (v, _, w2) => Some (v, w2)
          | None => None
          end
      | Some (VBool false, env1, w1) => exec ss' env1 w1
      | _ => None
      end
  | SReturn r :: _ =>
      match ev r env w with
      | Some (v, _, w1) => Some (v, w1)
      | None => None
      end
  end.

(** A call by name, with the values of its arguments. *)
Definition invoke (f : String.string) (vs : list value) (w : world)
  : option (value * world) :=
  match module_scope f with
  | Some (Builtin g) =>
      match vs with
      | [VNum x; VNum y] => Some (VNum (g x y), w)
      | _ => None
      end
  | Some (Function fn) =>
      match bind_params (params fn) vs [] w with
      | Some (env, w1) => exec (statements fn) env w1
      | None => None
      end
  | None => None
  end.

End Interpreter.

(** Expressions; [fuel] bounds the nesting of evaluations.  An identifier
    that is not a parameter is read from the store, an assignment to one
    is written there; both are recorded. *)
Fixpoint eval (fuel : nat) (e : expr) (env : bindings) (w : world)
  : option (value * bindings * world) :=
  match fuel with
  | O => None
  | S n =>
      match e with
      | ENum k => Some (VNum k, env, w)
      | EVar x =>
          match lookup x env with
          | Some v => Some (v, env, w)
          | None =>
              match lookup x (globals w) with
              | Some v =>
                  Some (v, env, World_ (globals w) (accesses w ++ [Read x]))
              | None => None
              end
          end
      | ELe e1 e2 =>
          match eval n e1 env w with
          | Some (VNum x, env1, w1) =>
              match eval n e2 env1 w1 with
              | Some (VNum y, env2, w2) => Some (VBool (x <=? y), env2, w2)
              | _ => None
              end
          | _ => None
          end
      | ECall f args =>
          match eval_args (eval n) args env w with
          | Some (vs, env1, w1) =>
              match invoke (eval n) f vs w1 with
              | Some (v, w2) => Some (v, env1, w2)
              | None => None
              end
          | None => None
          end
      | EAssign x e1 =>
          match eval n e1 env w with
          | Some (v, env1, w1) =>
              match lookup x env1 with
              | Some _ => Some (v, update x v env1, w1)
              | None =>
                  Some (v, env1,
                        World_ (update x v (globals w1))
                               (accesses w1 ++ [Write x v]))
              end
          | None => None
          end
      end
  end.

(** The arguments of [multiply(a, b)] and of [multiply(a, b, base)]. *)
Definition arguments (a b : Z) (base : option Z) : list value :=
  VNum a :: VNum b ::
  match base with Some v => [VNum v] | None => [] end.

Definition call_multiply (fuel : nat) (a b : Z) (base : option Z) (w : world)
  : option (value * world) :=
  invoke (eval fuel) "multiply" (arguments a b base) w.

(** ** Reading a trace *)

(** An addition of the event adds [v]. *)
Definition adds (v : Z) (e : event) : Prop :=
  match e with
  | EvAdd _ y => y = v
  | _ => True
  end.

(** The world after the collaborator call of an event. *)
Definition after_event {World : Type}
    (addW subtractW : Z -> Z -> World -> Z * World)
    (w : World) (e : event) : World :=
  match e with
  | EvAdd x y => snd (addW x y w)
  | EvSubtract x y => snd (subtractW x y w)
  | EvMultiply _ => w
  end.

(** ** The suite against any implementation *)

Definition holds_with (impl : Z -> Z -> Z) (e : expectation) : bool :=
  toBe (impl (received_a e) (received_b e)) (wanted e).
Definition it_passes_with (impl : Z -> Z -> Z) (t : it_block) : bool :=
  forallb (holds_with impl) (expectations t).
Definition suite_passes_with (impl : Z -> Z -> Z) (s : list it_block)
  : bool :=
  forallb (it_passes_with impl) s.

(** ** The wording of the specification *)

(** "[a] added to itself [b] times": [b] additions of [a], from nothing. *)
Definition added_to_itself (a b : Z) : Z :=
  Nat.iter (Z.to_nat b) (fun acc => acc + a) 0.

(** ** Basic equations *)

Lemma multiply_eq (a b : Z) (base : option Z) :
  multiply a b base =
  if b <=? 1 then a
  else multiply (add a (default_base a base)) (subtract b 1)
                (Some (default_base a base)).
Proof.
  rewrite multiply_equation_1 at 1.
  destruct (Z_le_gt_dec b 1) as [Hle | Hgt]; cbn.
  - apply Z.leb_le in Hle. now rewrite Hle.
  - assert (Hf : (b <=? 1) = false) by (apply Z.leb_gt; lia).
    now rewrite Hf.
Qed.

Lemma multiply_guard (a b : Z) (base : option Z) :
  b <= 1 -> multiply a b base = a.
Proof.
  intros Hb. rewrite multiply_eq.
  apply Z.leb_le in Hb. now rewrite Hb.
Qed.

Lemma multiply_recursive (a b : Z) (base : option Z) :
  2 <= b ->
  multiply a b base =
  multiply (a + default_base a base) (b - 1) (Some (default_base a base)).
Proof.
  intros Hb. rewrite multiply_eq.
  assert (Hf : (b <=? 1) = false) by (apply Z.leb_gt; lia).
  now rewrite Hf.
Qed.

(** With the base supplied, [n] further units of count add [n] times the
    base to the accumulator. *)
Lemma multiply_accumulates (n : nat) :
  forall a base0 : Z,
    multiply a (Z.of_nat n + 1) (Some base0) = a + Z.of_nat n * base0.
Proof.
  induction n as [| n IH]; intros a base0.
  - rewrite multiply_guard by (cbn; lia). cbn. lia.
  - rewrite multiply_recursive by lia. cbn [default_base].
    replace (Z.of_nat (S n) + 1 - 1) with (Z.of_nat n + 1) by lia.
    rewrite IH. lia.
Qed.

Lemma multiply_closed_form (a b : Z) (base : option Z) :
  1 <= b -> multiply a b base = a + (b - 1) * default_base a base.
Proof.
  intros Hb.
  destruct (Z.eq_dec b 1) as [-> | Hne].
  - rewrite multiply_guard by lia. lia.
  - rewrite multiply_recursive by lia.
    replace (b - 1) with (Z.of_nat (Z.to_nat (b - 2)) + 1) by lia.
    rewrite multiply_accumulates. lia.
Qed.

(** The value on every integer count, below the guard or above it. *)
Lemma multiply_total_form (a b : Z) (base : option Z) :
  multiply a b base = a + (Z.max b 1 - 1) * default_base a base.
Proof.
  destruct (Z_le_gt_dec b 1) as [Hle | Hgt].
  - rewrite multiply_guard by exact Hle.
    replace (Z.max b 1) with 1 by lia. lia.
  - rewrite multiply_closed_form by lia.
    replace (Z.max b 1) with b by lia. reflexivity.
Qed.

Lemma multiply_two_arguments (a b : Z) :
  multiply a b None = a * Z.max b 1.
Proof. rewrite multiply_total_form. cbn [default_base]. lia. Qed.

Lemma added_to_itself_product (a b : Z) :
  0 <= b -> added_to_itself a b = a * b.
Proof.
  intros Hb. unfold added_to_itself.
  rewrite <- (Z2Nat.id b) at 2 by exact Hb.
  induction (Z.to_nat b) as [| n IH].
  - cbn. lia.
  - rewrite Nat.iter_succ, IH. lia.
Qed.

(** ** The body and the chain of invocations *)

Lemma body_guard (c : frame) :
  arg_b c <= 1 -> body c = ([], Return (arg_a c)).
Proof.
  intros Hb. unfold body. cbv zeta.
  apply Z.leb_le in Hb. now rewrite Hb.
Qed.

Lemma body_recursive (c : frame) :
  2 <= arg_b c ->
  body c =
  ([EvAdd (arg_a c) (default_base (arg_a c) (arg_base c));
    EvSubtract (arg_b c) 1],
   Recurse (Frame (arg_a c + default_base (arg_a c) (arg_base c))
                  (arg_b c - 1)
                  (Some (default_base (arg_a c) (arg_base c))))).
Proof.
  intros Hb. unfold body. cbv zeta.
  assert (Hf : (arg_b c <=? 1) = false) by (apply Z.leb_gt; lia).
  now rewrite Hf.
Qed.

Lemma run_S (n : nat) (c : frame) :
  run (S n) c =
  match body c with
  | (evs, Return v) => Some (evs, v)
  | (evs, Recurse c') =>
      match run n c' with
      | Some (evs', v) => Some (evs ++ EvMultiply c' :: evs', v)
      | None => None
      end
  end.
Proof. reflexivity. Qed.

(** Any stack of at least [depth b] frames lets the call return; the value
    is that of [multiply] and the events are those of [b - 1] steps. *)
Lemma run_enough (n : nat) :
  forall (k : nat) (c : frame),
    Z.to_nat (arg_b c - 1) = n ->
    run (S n + k) c =
    Some (trace_of n (arg_a c) (arg_b c)
                   (default_base (arg_a c) (arg_base c)),
          multiply (arg_a c) (arg_b c) (arg_base c)).
Proof.
  induction n as [| n IH]; intros k c Hn.
  - change (1 + k)%nat with (S k).
    rewrite run_S, body_guard by lia.
    rewrite multiply_guard by lia. reflexivity.
  - change (S (S n) + k)%nat with (S (S n + k)).
    rewrite run_S, body_recursive by lia.
    specialize (IH k (Frame (arg_a c + default_base (arg_a c) (arg_base c))
                            (arg_b c - 1)
                            (Some (default_base (arg_a c) (arg_base c))))).
    cbn [arg_a arg_b arg_base default_base] in IH.
    rewrite IH by lia.
    rewrite (multiply_recursive (arg_a c) (arg_b c)) by lia.
    reflexivity.
Qed.

Lemma run_depth (c : frame) :
  run (depth (arg_b c)) c =
  Some (trace_of (Z.to_nat (arg_b c - 1)) (arg_a c) (arg_b c)
                 (default_base (arg_a c) (arg_base c)),
        multiply (arg_a c) (arg_b c) (arg_base c)).
Proof.
  unfold depth.
  rewrite <- (Nat.add_0_r (S (Z.to_nat (arg_b c - 1)))).
  now apply run_enough.
Qed.

Lemma run_call (a b : Z) (base : option Z) :
  run (depth b) (Frame a b base) =
  Some (trace_of (Z.to_nat (b - 1)) a b (default_base a base),
        multiply a b base).
Proof. exact (run_depth (Frame a b base)). Qed.

Lemma trace_of_stepped (n : nat) :
  forall a b base0, stepped n (trace_of n a b base0).
Proof.
  induction n as [| n IH]; intros a b base0; cbn.
  - constructor.
  - constructor. apply IH.
Qed.

Lemma stepped_counts (n : nat) (tr : list event) :
  stepped n tr ->
  count_events is_add tr = n /\
  count_events is_subtract tr = n /\
  count_events is_multiply tr = n /\
  length tr = (3 * n)%nat.
Proof.
  unfold count_events.
  induction 1 as [| x y u v c n tr _ (Ha & Hs & Hm & Hl)]; cbn.
  - repeat split.
  - repeat split; lia.
Qed.

Lemma trace_of_frames_base (n : nat) :
  forall a b base0,
    Forall (fun c => arg_base c = Some base0)
           (recursive_frames (trace_of n a b base0)).
Proof.
  induction n as [| n IH]; intros a b base0; cbn.
  - constructor.
  - constructor; [reflexivity | apply IH].
Qed.

Lemma trace_of_frames_length (n : nat) :
  forall a b base0,
    length (recursive_frames (trace_of n a b base0)) = n.
Proof.
  induction n as [| n IH]; intros a b base0; cbn.
  - reflexivity.
  - now rewrite IH.
Qed.

Lemma trace_of_adds (n : nat) :
  forall a b base0, Forall (adds base0) (trace_of n a b base0).
Proof.
  induction n as [| n IH]; intros a b base0; cbn.
  - constructor.
  - repeat (constructor; [exact I || reflexivity |]). apply IH.
Qed.

(** What the call of a given base performs: as many recursive calls as
    the count exceeds 1, each handed that base, each addition adding it. *)
Lemma run_with_base (a b base0 : Z) (base : option Z) :
  default_base a base = base0 ->
  exists tr,
    run (depth b) (Frame a b base) =
    Some (tr, a + (Z.max b 1 - 1) * base0) /\
    length (recursive_frames tr) = Z.to_nat (b - 1) /\
    Forall (fun c => arg_base c = Some base0) (recursive_frames tr) /\
    Forall (adds base0) tr.
Proof.
  intros Hbase. eexists. split.
  - rewrite run_call, multiply_total_form, Hbase. reflexivity.
  - split; [apply trace_of_frames_length |].
    split; [apply trace_of_frames_base | apply trace_of_adds].
Qed.

(** ** The interpreted source *)

Lemma call_multiply_step (fuel : nat) (a b : Z) (base : option Z) (w : world) :
  call_multiply (S (S (S fuel))) a b base w =
  if b <=? 1 then Some (VNum a, w)
  else call_multiply (S (S fuel)) (add a (default_base a base))
                     (subtract b 1) (Some (default_base a base)) w.
Proof.
  destruct (b <=? 1) eqn:Hle.
  - destruct base as [base0 |]; unfold call_multiply, invoke; cbn;
      rewrite Hle; reflexivity.
  - remember (call_multiply (S (S fuel)) (add a (default_base a base))
                (subtract b 1) (Some (default_base a base)) w) as r eqn:Hr.
    destruct base as [base0 |]; unfold call_multiply, invoke in *;
      cbn in *; rewrite Hle; rewrite <- Hr;
      destruct r as [[v w'] |]; reflexivity.
Qed.

Lemma call_multiply_guard (fuel : nat) (a b : Z) (base : option Z) (w : world) :
  b <= 1 -> call_multiply (S (S fuel)) a b base w = Some (VNum a, w).
Proof.
  intros Hb. apply Z.leb_le in Hb.
  destruct base as [base0 |]; unfold call_multiply, invoke; cbn;
    rewrite Hb; reflexivity.
Qed.

(** Below three units of fuel only the guard can return. *)
Lemma call_multiply_short (fuel : nat) (a b : Z) (base : option Z) (w : world) :
  (fuel < 3)%nat -> 2 <= b -> call_multiply fuel a b base w = None.
Proof.
  intros Hf Hb.
  assert (Hle : (b <=? 1) = false) by (apply Z.leb_gt; lia).
  destruct fuel as [| [| [| fuel]]]; [| | | lia];
    destruct base as [base0 |]; unfold call_multiply, invoke; cbn;
    rewrite ?Hle; reflexivity.
Qed.

Lemma call_multiply_enough (n : nat) :
  forall (k : nat) (a b : Z) (base : option Z) (w : world),
    Z.to_nat (b - 1) = n ->
    call_multiply (2 + n + k) a b base w = Some (VNum (multiply a b base), w).
Proof.
  induction n as [| n IH]; intros k a b base w Hn.
  - change (2 + 0 + k)%nat with (S (S k)).
    rewrite call_multiply_guard, multiply_guard by lia. reflexivity.
  - change (2 + S n + k)%nat with (S (S (S (n + k)))).
    rewrite call_multiply_step, (multiply_eq a b).
    assert (Hle : (b <=? 1) = false) by (apply Z.leb_gt; lia).
    rewrite Hle. apply (IH k). unfold subtract. lia.
Qed.

Lemma call_multiply_returns (fuel : nat) :
  forall (a b : Z) (base : option Z) (w : world) (r : value * world),
    call_multiply fuel a b base w = Some r ->
    r = (VNum (multiply a b base), w).
Proof.
  induction fuel as [| fuel IH]; intros a b base w r Hr.
  - destruct (Z_le_gt_dec b 1) as [Hb | Hb].
    + destruct base; discriminate Hr.
    + rewrite call_multiply_short in Hr by lia. discriminate.
  - destruct (Z_le_gt_dec b 1) as [Hb | Hb].
    + destruct fuel as [| fuel].
      * destruct base; discriminate Hr.
      * rewrite call_multiply_guard in Hr by exact Hb.
        rewrite multiply_guard by exact Hb. now injection Hr as <-.
    + destruct fuel as [| [| fuel]];
        try (rewrite call_multiply_short in Hr by lia; discriminate).
      rewrite call_multiply_step in Hr.
      assert (Hle : (b <=? 1) = false) by (apply Z.leb_gt; lia).
      rewrite Hle in Hr. apply IH in Hr.
      now rewrite (multiply_eq a b), Hle.
Qed.

(** The interpreter does record what touches the store: an assignment to
    a name that is no parameter writes it, such a name read is a read. *)
Lemma eval_records_accesses :
  eval 2 (EAssign "total" (ENum 1)) [] (World_ [] []) =
  Some (VNum 1, [],
        World_ [("total"%string, VNum 1)] [Write "total" (VNum 1)]) /\
  eval 1 (EVar "base") [] (World_ [("base"%string, VNum 7)] []) =
  Some (VNum 7, [], World_ [("base"%string, VNum 7)] [Read "base"]).
Proof. split; reflexivity. Qed.

(** ** The statements of the specification *)

(** C1: for non-negative integers [a] and [b] with [b >= 1],
    [multiply(a, b)] is [a] added to itself [b] times, that is the product
    [a * b]; and at [b = 0], [multiply(a, 0)] returns [a]. *)
Theorem multiply_repeated_addition (a b : Z) :
  0 <= a ->
  (1 <= b ->
   multiply a b None = added_to_itself a b /\ multiply a b None = a * b) /\
  multiply a 0 None = a.
Proof.
  intros _. split.
  - intros Hb.
    assert (Hp : multiply a b None = a * b).
    { rewrite multiply_closed_form by exact Hb. cbn [default_base]. lia. }
    split; [| exact Hp].
    rewrite Hp, added_to_itself_product by lia. reflexivity.
  - apply multiply_guard. lia.
Qed.

Lemma multiply_repeated_addition_witness :
  (multiply 3 4 None = added_to_itself 3 4 /\ multiply 3 4 None = 3 * 4) /\
  multiply 3 0 None = 3.
Proof.
  destruct (multiply_repeated_addition 3 4 ltac:(lia)) as [Hpos Hzero].
  split; [apply Hpos; lia | exact Hzero].
Defined.

(** C2, as stated (the product for every count [b >= 0]), fails at a zero
    count: [multiply(3, 0)] is [3], the product is [0]. *)
Lemma multiply_zero_count_not_product :
  0 <= 0 /\ multiply 3 0 None = 3 /\ multiply 3 0 None <> 3 * 0.
Proof.
  assert (H : multiply 3 0 None = 3) by (apply multiply_guard; lia).
  split; [lia | split; [exact H | rewrite H; lia]].
Qed.

(** C2, amended: for every integer [a] and every count [b >= 0],
    [multiply(a, b)] returns the product [a * b] when [b >= 1], and [a]
    when [b = 0]. *)
Theorem multiply_product (a b : Z) :
  0 <= b -> multiply a b None = if b =? 0 then a else a * b.
Proof.
  intros Hb. destruct (Z.eqb_spec b 0) as [-> | Hne].
  - apply multiply_guard. lia.
  - rewrite multiply_closed_form by lia. cbn [default_base]. lia.
Qed.

Lemma multiply_product_witness :
  multiply (-7) 6 None = if 6 =? 0 then -7 else -7 * 6.
Proof. apply (multiply_product (-7) 6). lia. Defined.

(** C3: whenever [b <= 1] (zero, one or negative), [multiply(a, b, base)]
    returns the accumulator [a] unchanged, for every [a] and every base,
    supplied or not; the first invocation returns, nothing else happens. *)
Theorem multiply_terminal_condition (a b : Z) (base : option Z) :
  b <= 1 ->
  multiply a b base = a /\ run 1 (Frame a b base) = Some ([], a).
Proof.
  intros Hb. split.
  - now apply multiply_guard.
  - rewrite run_S, body_guard by exact Hb. reflexivity.
Qed.

Lemma multiply_terminal_condition_witness :
  multiply 9 0 (Some 4) = 9 /\ run 1 (Frame 9 0 (Some 4)) = Some ([], 9).
Proof. apply (multiply_terminal_condition 9 0 (Some 4)). lia. Defined.

(** C4, as stated (a negative count makes the call recurse without bound),
    fails: [multiply(5, -3)] returns [5] from its first invocation. *)
Lemma multiply_negative_count_returns :
  -3 < 0 /\
  run 1 (Frame 5 (-3) None) = Some ([], 5) /\
  ~ diverges (Frame 5 (-3) None).
Proof.
  assert (H : run 1 (Frame 5 (-3) None) = Some ([], 5)) by reflexivity.
  split; [lia | split; [exact H |]].
  intros Hd. specialize (Hd 1%nat). rewrite H in Hd. discriminate.
Qed.

(** C4, amended: for every integer [a] and every negative [b], the call
    [multiply(a, b)] terminates at once: the guard [b <= 1] holds in the
    first invocation, which returns [a] with no addition, no subtraction
    and no recursive call. *)
Theorem multiply_negative_count (a b : Z) :
  b < 0 ->
  run 1 (Frame a b None) = Some ([], a) /\
  multiply a b None = a /\
  ~ diverges (Frame a b None).
Proof.
  intros Hb.
  assert (H : run 1 (Frame a b None) = Some ([], a)).
  { rewrite run_S, body_guard by (cbn; lia). reflexivity. }
  split; [exact H | split; [apply multiply_guard; lia |]].
  intros Hd. specialize (Hd 1%nat). rewrite H in Hd. discriminate.
Qed.

Lemma multiply_negative_count_witness :
  run 1 (Frame 8 (-2) None) = Some ([], 8) /\
  multiply 8 (-2) None = 8 /\
  ~ diverges (Frame 8 (-2) None).
Proof. apply (multiply_negative_count 8 (-2)). lia. Defined.

(** C5: whenever [b >= 2] the invocation takes the recursive branch; it
    performs one [add] and one [subtract], the accumulator of the recursive
    call is the old accumulator plus the base, and its count is exactly
    [b - 1], strictly less than [b]. *)
Theorem multiply_step_invariant (c : frame) :
  2 <= arg_b c ->
  exists c',
    body c = ([EvAdd (arg_a c) (default_base (arg_a c) (arg_base c));
               EvSubtract (arg_b c) 1],
              Recurse c') /\
    arg_a c + default_base (arg_a c) (arg_base c) = arg_a c' /\
    arg_b c' = arg_b c - 1 /\
    arg_b c' < arg_b c /\
    multiply (arg_a c) (arg_b c) (arg_base c) =
    multiply (arg_a c') (arg_b c') (arg_base c').
Proof.
  intros Hb. eexists. split; [now apply body_recursive |].
  cbn [arg_a arg_b arg_base].
  split; [reflexivity | split; [reflexivity | split; [lia |]]].
  now apply multiply_recursive.
Qed.

Lemma multiply_step_invariant_witness :
  exists c',
    body (Frame 6 3 (Some 2)) = ([EvAdd 6 2; EvSubtract 3 1], Recurse c') /\
    6 + 2 = arg_a c' /\
    arg_b c' = 3 - 1 /\
    arg_b c' < 3 /\
    multiply 6 3 (Some 2) = multiply (arg_a c') (arg_b c') (arg_base c').
Proof. apply (multiply_step_invariant (Frame 6 3 (Some 2))). cbn. lia. Defined.

(** C6: for a count [b >= 1] the evaluation of [multiply(a, b)] returns
    after exactly [b - 1] recursive steps, and each step is exactly one
    call of [add], one call of [subtract] and the recursive call. *)
Theorem multiply_step_count (a b : Z) (base : option Z) :
  1 <= b ->
  exists tr,
    run (depth b) (Frame a b base) = Some (tr, multiply a b base) /\
    stepped (Z.to_nat (b - 1)) tr /\
    Z.of_nat (count_events is_multiply tr) = b - 1 /\
    Z.of_nat (count_events is_add tr) = b - 1 /\
    Z.of_nat (count_events is_subtract tr) = b - 1.
Proof.
  intros Hb. eexists. split; [apply run_call |].
  pose proof (trace_of_stepped (Z.to_nat (b - 1)) a b (default_base a base))
    as Hst.
  destruct (stepped_counts _ _ Hst) as (Ha & Hs & Hm & _).
  split; [exact Hst |].
  rewrite Ha, Hs, Hm. lia.
Qed.

Lemma multiply_step_count_witness :
  exists tr,
    run (depth 4) (Frame 2 4 None) = Some (tr, multiply 2 4 None) /\
    stepped (Z.to_nat (4 - 1)) tr /\
    Z.of_nat (count_events is_multiply tr) = 4 - 1 /\
    Z.of_nat (count_events is_add tr) = 4 - 1 /\
    Z.of_nat (count_events is_subtract tr) = 4 - 1.
Proof. apply (multiply_step_count 2 4 None). lia. Defined.

(** C7: a call with two arguments is the call with the base set to its
    first argument, [multiply(a, b) = multiply(a, b, a)], in value and in
    everything performed: the base defaults to [a]; and the base of the
    first invocation, defaulted to [a] or supplied, is the base handed to
    every one of the [b - 1] recursive invocations and the addend of every
    addition. *)
Theorem multiply_base_fixed (a b : Z) :
  multiply a b None = multiply a b (Some a) /\
  run (depth b) (Frame a b None) = run (depth b) (Frame a b (Some a)) /\
  (exists tr,
      run (depth b) (Frame a b None) = Some (tr, a + (Z.max b 1 - 1) * a) /\
      length (recursive_frames tr) = Z.to_nat (b - 1) /\
      Forall (fun c => arg_base c = Some a) (recursive_frames tr) /\
      Forall (adds a) tr) /\
  forall base0 : Z,
  exists tr,
    run (depth b) (Frame a b (Some base0)) =
    Some (tr, a + (Z.max b 1 - 1) * base0) /\
    length (recursive_frames tr) = Z.to_nat (b - 1) /\
    Forall (fun c => arg_base c = Some base0) (recursive_frames tr) /\
    Forall (adds base0) tr.
Proof.
  split; [| split; [| split]].
  - rewrite (multiply_eq a b None), (multiply_eq a b (Some a)).
    reflexivity.
  - rewrite !run_call. cbn [default_base].
    rewrite (multiply_eq a b None), (multiply_eq a b (Some a)).
    reflexivity.
  - now apply run_with_base.
  - intros base0. now apply run_with_base.
Qed.

(** C8: the scenarios of the test fixture. *)
Theorem multiply_fixture :
  multiply 2 2 None = 4 /\
  multiply 4 2 None = 8 /\
  multiply 16 2 None = 32 /\
  multiply 2 4 None = 8 /\
  multiply 4 4 None = 16 /\
  multiply 16 4 None = 64 /\
  multiply 2 5 None = 10 /\
  multiply 16 5 None = 80 /\
  multiply 2 10 None = 20 /\
  multiply 16 10 None = 160.
Proof. repeat split; vm_compute; reflexivity. Qed.

(** C9: a call of [multiply], run from its source text in any world,
    returns the value [multiply a b base] and hands the world back as it
    was: it reads no global variable and writes none, so the value does
    not depend on the world, and every call that returns, with whatever
    fuel and in whatever world, returns that same value. *)
Theorem multiply_deterministic_pure (a b : Z) (base : option Z) :
  (exists fuel : nat, forall (k : nat) (w : world),
      call_multiply (fuel + k) a b base w =
      Some (VNum (multiply a b base), w)) /\
  (forall (fuel : nat) (w : world) (r : value * world),
      call_multiply fuel a b base w = Some r ->
      r = (VNum (multiply a b base), w)).
Proof.
  split.
  - exists (2 + Z.to_nat (b - 1))%nat. intros k w.
    now apply call_multiply_enough.
  - intros fuel w r. apply call_multiply_returns.
Qed.

Lemma multiply_deterministic_pure_witness :
  (exists fuel : nat, forall (k : nat) (w : world),
      call_multiply (fuel + k) 2 3 None w =
      Some (VNum (multiply 2 3 None), w)) /\
  (VNum 6, World_ [("base"%string, VNum 9)] [Read "base"]) =
  (VNum (multiply 2 3 None), World_ [("base"%string, VNum 9)] [Read "base"]).
Proof.
  destruct (multiply_deterministic_pure 2 3 None) as [Hret Hany].
  split; [exact Hret |].
  apply (Hany 4%nat (World_ [("base"%string, VNum 9)] [Read "base"])).
  reflexivity.
Defined.

(** C10: for all integers [a], [b] and any base, also for negative [b],
    the call returns: a stack of [depth b] frames or more gives the value
    of the total function [multiply]; a recursive call has the count
    [b - 1] and needs strictly less depth, an invocation that does not
    recurse has [b <= 1]. *)
Theorem multiply_terminates (a b : Z) (base : option Z) :
  (exists tr, forall k : nat,
      run (depth b + k) (Frame a b base) = Some (tr, multiply a b base)) /\
  ~ diverges (Frame a b base) /\
  match snd (body (Frame a b base)) with
  | Recurse c' => arg_b c' = b - 1 /\ (depth (arg_b c') < depth b)%nat
  | Return _ => b <= 1
  end.
Proof.
  split; [| split].
  - eexists. intros k. unfold depth.
    now apply (run_enough _ k (Frame a b base)).
  - intros Hd. specialize (Hd (depth b)).
    rewrite run_call in Hd. discriminate.
  - destruct (Z_le_gt_dec b 1) as [Hle | Hgt].
    + rewrite body_guard by exact Hle. exact Hle.
    + rewrite body_recursive by (cbn; lia).
      cbn [snd arg_a arg_b arg_base]. unfold depth. lia.
Qed.

(** ** Further properties of [multiply] *)

(** X1: on all integers, [multiply(a, b, base0)] with a supplied base is
    [a + (max(b, 1) - 1) * base0], and the call with two arguments is
    [a * max(b, 1)]. *)
Theorem multiply_value_all_integers (a b base0 : Z) :
  multiply a b (Some base0) = a + (Z.max b 1 - 1) * base0 /\
  multiply a b None = a * Z.max b 1.
Proof.
  split; [apply (multiply_total_form a b (Some base0))
         | apply multiply_two_arguments].
Qed.

(** X2: with two arguments [multiply] is linear in its first argument, for
    every count: it distributes over sums, commutes with negation and with
    scaling of the multiplicand. *)
Theorem multiply_linear_in_multiplicand (a1 a2 k b : Z) :
  multiply (a1 + a2) b None = multiply a1 b None + multiply a2 b None /\
  multiply (- a1) b None = - multiply a1 b None /\
  multiply (k * a1) b None = k * multiply a1 b None.
Proof.
  rewrite !multiply_two_arguments. split; [| split]; ring.
Qed.

(** X3: exchanging the two arguments gives the same value exactly when
    both are at least 1 or they are equal; so [multiply(0, 5) = 0] but
    [multiply(5, 0) = 5]. *)
Theorem multiply_commutes_iff (a b : Z) :
  multiply a b None = multiply b a None <-> (1 <= a /\ 1 <= b) \/ a = b.
Proof.
  rewrite !multiply_two_arguments. split.
  - intros H.
    destruct (Z_le_gt_dec a 0) as [Ha | Ha];
      destruct (Z_le_gt_dec b 0) as [Hb | Hb].
    + right. rewrite !Z.max_r in H by lia. lia.
    + exfalso. rewrite (Z.max_l b 1), (Z.max_r a 1) in H by lia. nia.
    + exfalso. rewrite (Z.max_r b 1), (Z.max_l a 1) in H by lia. nia.
    + left. lia.
  - intros [[Ha Hb] | ->]; [| reflexivity].
    rewrite !Z.max_l by lia. ring.
Qed.

(** X4: nesting two calls with counts [b, c >= 1] is one call with the
    count [b * c]. *)
Theorem multiply_nested (a b c : Z) :
  1 <= b -> 1 <= c ->
  multiply (multiply a b None) c None = multiply a (b * c) None.
Proof.
  intros Hb Hc. rewrite !multiply_two_arguments.
  rewrite !Z.max_l by nia. ring.
Qed.

Lemma multiply_nested_witness :
  multiply (multiply 3 4 None) 5 None = multiply 3 (4 * 5) None.
Proof. apply (multiply_nested 3 4 5); lia. Defined.

(** X5: from the count 1 upwards one more unit of count adds the base
    once more, [multiply(a, b + 1, base) = add(multiply(a, b, base), base)];
    from 0 to 1 it adds nothing. *)
Theorem multiply_next_count (a b : Z) (base : option Z) :
  1 <= b ->
  multiply a (b + 1) base = add (multiply a b base) (default_base a base) /\
  multiply a 1 base = multiply a 0 base.
Proof.
  intros Hb. split.
  - unfold add. rewrite !multiply_closed_form by lia. ring.
  - rewrite !multiply_guard by lia. reflexivity.
Qed.

Lemma multiply_next_count_witness :
  multiply 7 (3 + 1) (Some 2) = add (multiply 7 3 (Some 2)) 2 /\
  multiply 7 1 (Some 2) = multiply 7 0 (Some 2).
Proof. apply (multiply_next_count 7 3 (Some 2)). lia. Defined.

(** ** The call stack *)

Lemma run_short (fuel : nat) :
  forall c : frame, (fuel < depth (arg_b c))%nat -> run fuel c = None.
Proof.
  induction fuel as [| n IH]; intros c Hlt; [reflexivity |].
  unfold depth in Hlt.
  rewrite run_S, body_recursive by lia.
  rewrite IH; [reflexivity |].
  cbn [arg_b]. unfold depth. lia.
Qed.

(** X6: the call needs a stack of exactly [depth b = 1 + max(b - 1, 0)]
    frames: with fewer the chain of invocations does not return, with that
    many or more it returns the value of [multiply] after the events of
    [b - 1] steps. *)
Theorem run_stack_depth (fuel : nat) (a b : Z) (base : option Z) :
  run fuel (Frame a b base) =
  if (fuel <? depth b)%nat then None
  else Some (trace_of (Z.to_nat (b - 1)) a b (default_base a base),
             multiply a b base).
Proof.
  destruct (Nat.ltb_spec fuel (depth b)) as [Hlt | Hge].
  - now apply (run_short fuel (Frame a b base)).
  - replace fuel with (S (Z.to_nat (b - 1)) + (fuel - depth b))%nat
      by (unfold depth in *; lia).
    now apply (run_enough _ _ (Frame a b base)).
Qed.

Lemma trace_of_frames_invariant (n : nat) (base0 : Z) :
  forall a b : Z,
    Z.to_nat (b - 1) = n ->
    Forall (fun c => arg_a c + (arg_b c - 1) * base0 = a + (b - 1) * base0 /\
                     1 <= arg_b c < b)
           (recursive_frames (trace_of n a b base0)).
Proof.
  induction n as [| n IH]; intros a b Hn; cbn.
  - constructor.
  - constructor.
    + cbn [arg_a arg_b]. lia.
    + specialize (IH (a + base0) (b - 1) ltac:(lia)).
      eapply Forall_impl; [| exact IH].
      cbn beta. intros c [Hinv Hb]. lia.
Qed.

(** X7: in every recursive invocation of a call of [multiply], the
    accumulator plus [count - 1] times the base is what it was in the first
    invocation, and the count stays between 1 and the first count. *)
Theorem multiply_frames_invariant (a b : Z) (base : option Z) :
  exists tr,
    run (depth b) (Frame a b base) = Some (tr, multiply a b base) /\
    Forall (fun c =>
              arg_a c + (arg_b c - 1) * default_base a base =
              a + (b - 1) * default_base a base /\
              1 <= arg_b c < b)
           (recursive_frames tr).
Proof.
  eexists. split; [apply run_call |].
  now apply trace_of_frames_invariant.
Qed.

(** ** Collaborators with effects *)

Lemma multiplyW_S
    (World : Type) (addW subtractW : Z -> Z -> World -> Z * World)
    (n : nat) (a b : Z) (base : option Z) (w : World) :
  multiplyW addW subtractW (S n) a b base w =
  if b <=? 1 then Some (a, w)
  else
    let (s, w1) := addW a (default_base a base) w in
    let (d, w2) := subtractW b 1 w1 in
    multiplyW addW subtractW n s d (Some (default_base a base)) w2.
Proof. reflexivity. Qed.

Lemma multiplyW_trace
    (World : Type) (addW subtractW : Z -> Z -> World -> Z * World) :
  (forall x y w, fst (addW x y w) = add x y) ->
  (forall x y w, fst (subtractW x y w) = subtract x y) ->
  forall (n : nat) (a b : Z) (base : option Z) (w : World),
    Z.to_nat (b - 1) = n ->
    multiplyW addW subtractW (S n) a b base w =
    Some (multiply a b base,
          fold_left (after_event addW subtractW)
                    (trace_of n a b (default_base a base)) w).
Proof.
  intros Hadd Hsub n.
  induction n as [| n IH]; intros a b base w Hn.
  - rewrite multiplyW_S.
    assert (Hb : (b <=? 1) = true) by (apply Z.leb_le; lia).
    rewrite Hb, multiply_guard by lia. reflexivity.
  - rewrite multiplyW_S.
    assert (Hb : (b <=? 1) = false) by (apply Z.leb_gt; lia).
    rewrite Hb.
    pose proof (Hadd a (default_base a base) w) as Ha.
    destruct (addW a (default_base a base) w) as [s w1] eqn:Eadd.
    pose proof (Hsub b 1 w1) as Hs.
    destruct (subtractW b 1 w1) as [d w2] eqn:Esub.
    cbn [fst] in Ha, Hs. subst s d.
    rewrite IH by (unfold subtract; lia).
    rewrite (multiply_eq a b), Hb.
    cbn [trace_of fold_left after_event default_base].
    rewrite Eadd. cbn [snd]. rewrite Esub. reflexivity.
Qed.

(** X8: when [add] and [subtract] return the sum and the difference and
    otherwise act on the world in any way, a call of [multiply] returns
    the value it returns with collaborators without effects, and leaves
    the world that results from the collaborator calls of its run, in
    order, each with the operands it had there; nothing else acts on the
    world. *)
Theorem multiplyW_effects
    (World : Type) (addW subtractW : Z -> Z -> World -> Z * World) :
  (forall x y w, fst (addW x y w) = add x y) ->
  (forall x y w, fst (subtractW x y w) = subtract x y) ->
  forall (a b : Z) (base : option Z) (w : World),
  exists tr,
    run (depth b) (Frame a b base) = Some (tr, multiply a b base) /\
    multiplyW addW subtractW (depth b) a b base w =
    Some (multiply a b base, fold_left (after_event addW subtractW) tr w).
Proof.
  intros Hadd Hsub a b base w. eexists.
  split; [apply run_call |].
  unfold depth. now apply multiplyW_trace.
Qed.

Lemma multiplyW_effects_witness :
  exists tr,
    run (depth 3) (Frame 5 3 None) = Some (tr, multiply 5 3 None) /\
    multiplyW (fun x y (w : list (Z * Z)) => (add x y, (x, y) :: w))
              (fun x y (w : list (Z * Z)) => (subtract x y, (x, y) :: w))
              (depth 3) 5 3 None [] =
    Some (multiply 5 3 None,
          fold_left
            (after_event
               (fun x y (w : list (Z * Z)) => (add x y, (x, y) :: w))
               (fun x y (w : list (Z * Z)) => (subtract x y, (x, y) :: w)))
            tr []).
Proof.
  apply (multiplyW_effects (list (Z * Z))
           (fun x y w => (add x y, (x, y) :: w))
           (fun x y w => (subtract x y, (x, y) :: w)));
    reflexivity.
Defined.

(** ** The test file *)

(** X9: every call of the suite of [multiply.test.js] has a count of at
    least 2 as its second argument; so the suite passes on [multiply], and
    it passes just the same on any function that returns the product for
    counts from 2 upwards, whatever that function returns for the counts
    1, 0 and below. *)
Theorem describe_multiply_blind_below_two (impl : Z -> Z -> Z) :
  (forall x k, 2 <= k -> impl x k = x * k) ->
  suite_passes_with impl describe_multiply = true /\
  suite_passes describe_multiply = true /\
  Forall (fun e => 2 <= received_b e)
         (flat_map expectations describe_multiply).
Proof.
  intros Himpl. split; [| split].
  - cbn. unfold holds_with, toBe. cbn.
    rewrite !Himpl by lia. reflexivity.
  - vm_compute. reflexivity.
  - cbn. repeat (constructor; [cbn; lia |]). constructor.
Qed.

Lemma describe_multiply_blind_below_two_witness :
  suite_passes_with (fun x k => if k <=? 1 then 0 else x * k)
                    describe_multiply = true /\
  suite_passes describe_multiply = true /\
  Forall (fun e => 2 <= received_b e)
         (flat_map expectations describe_multiply).
Proof.
  apply (describe_multiply_blind_below_two
           (fun x k => if k <=? 1 then 0 else x * k)).
  intros x k Hk.
  assert (Hf : (k <=? 1) = false) by (apply Z.leb_gt; lia).
  now rewrite Hf.
Defined.
